(** * ECStremity: the entity's component store, its event dispatch and the
      component registry

    A shallow embedding of [ecstremity/entity.py] and
    [ecstremity/registries/component_registry.py].

    Conventions of the embedding.
    - Component names are taken to be ASCII and are modelled as [string];
      on ASCII [str.upper] maps the letters a-z to A-Z and leaves every
      other character alone.  The mappings of [str.upper] on letters
      outside ASCII are not modelled.
    - A Python [dict] keeps insertion order, so the entity's store is an
      association list with the update discipline of [dict.__setitem__];
      the registry, whose order is never observed, is a [gmap].
    - Methods that mutate the entity or call collaborators are computations
      in a state-and-exception monad over a [World]: the entity itself and
      the trace of effects it has performed on its collaborators.  A raised
      exception keeps the mutations made before it, as in Python. *)

From Stdlib Require Import String Ascii List ZArith Bool Lia.
From stdpp Require Import base option list gmap strings.
Import ListNotations.

Local Open Scope string_scope.
Local Open Scope list_scope.

(** ** Strings and case *)

Module Case.

Definition is_lower (a : ascii) : bool :=
  let n := nat_of_ascii a in (97 <=? n)%nat && (n <=? 122)%nat.

Definition is_upper (a : ascii) : bool :=
  let n := nat_of_ascii a in (65 <=? n)%nat && (n <=? 90)%nat.

Definition upper_ascii (a : ascii) : ascii :=
  if is_lower a then ascii_of_nat (nat_of_ascii a - 32) else a.

Definition lower_ascii (a : ascii) : ascii :=
  if is_upper a then ascii_of_nat (nat_of_ascii a + 32) else a.

(** [str.upper()] *)
Fixpoint upper (s : string) : string :=
  match s with
  | EmptyString => EmptyString
  | String a r => String (upper_ascii a) (upper r)
  end.

(** [str.lower()] *)
Fixpoint lower (s : string) : string :=
  match s with
  | EmptyString => EmptyString
  | String a r => String (lower_ascii a) (lower r)
  end.

(** Two strings are casings of one another when they differ at most in
    the case of their letters. *)
Definition same_ignoring_case (s t : string) : Prop := lower s = lower t.

(** A name is canonical when it is its own uppercase form. *)
Definition canonical (s : string) : Prop := upper s = s.

End Case.

Import Case.

(** ** Values, events and exceptions *)

Definition Uid := string.

(** [Dict[str, Any]]: the keyword arguments of a constructor and the payload
    of an event; the payload values are integers in the model. *)
Definition Props := list (string * Z).

Inductive Exn :=
| KeyError (key : string)         (* dict lookup of an absent key *)
| TypeError                       (* constructor called with bad keywords *)
| AttributeError (method : string). (* method missing on a foreign object *)

(** Modelled from the spec: EntityEvent ([entity_event.py] is not among the
    sources): a name, a payload that handlers may change, and the
    [prevented] flag, which a fresh event has cleared. *)
Record EntityEvent := mkEvent {
  evt_name : string;
  evt_data : option Props;
  prevented : bool
}.

Definition new_event (name : string) (data : option Props) : EntityEvent :=
  mkEvent name data false.

(** Modelled from the spec: Component (the class is not among the sources).
    An instance has the canonical [name] of its kind, the fields it was
    constructed with, a back-reference to the entity it is attached to, and
    an event handler, which receives the event and may change its payload
    and its [prevented] flag.  [ident] is the identity of the object and
    [truthy] its truth value: what [bool] answers for it, which is [True]
    unless its class defines [__bool__] or [__len__] otherwise. *)
Record Component := mkComponent {
  ident : nat;
  name : string;
  fields : Props;
  entity : option Uid;
  truthy : bool;
  handler : EntityEvent -> EntityEvent
}.

(** A component definition: the class.  Calling it with keyword arguments
    either builds the fields of an instance or fails with [TypeError]; the
    class also fixes the truth value and the handler of its instances. *)
Record ComponentClass := mkClass {
  cls_name : string;
  cls_init : Props -> option Props;
  cls_truthy : Props -> bool;
  cls_handler : Props -> EntityEvent -> EntityEvent
}.

(** The call of a definition with the properties as keyword arguments; the
    new object receives identity [id]. *)
Definition instantiate (d : ComponentClass) (properties : Props) (id : nat)
  : Exn + Component :=
  match cls_init d properties with
  | Some fs =>
      inr (mkComponent id (cls_name d) fs None (cls_truthy d fs)
             (cls_handler d fs))
  | None => inl TypeError
  end.

(** What the store of an entity can hold.  The store is a plain [dict], so
    besides components it can hold any object that was assigned into it;
    such an object has a truth value and none of the methods of Component. *)
Record Foreign := mkForeign { f_ident : nat; f_truth : bool }.

Inductive Value :=
| VComponent (c : Component)
| VForeign (o : Foreign).

(** [isinstance(v, Component)] *)
Definition is_component (v : Value) : bool :=
  match v with VComponent _ => true | VForeign _ => false end.

(** [bool(v)]: the truth value of the stored object. *)
Definition truth (v : Value) : bool :=
  match v with VComponent c => truthy c | VForeign o => f_truth o end.

Definition value_ident (v : Value) : nat :=
  match v with VComponent c => ident c | VForeign o => f_ident o end.

(** [v == v'] for stored objects: neither Component nor a foreign object
    is known to define [__eq__], so two of them are equal when they are the
    same object. *)
Definition value_eqb (v v' : Value) : bool :=
  Nat.eqb (value_ident v) (value_ident v').

(** The argument of [add], [has], [remove], [create] and of indexing: a
    string, or a reference to a component (its class or an instance), of
    which only the [name] attribute is read. *)
Inductive ComponentArg :=
| ByName (s : string)
| ByClass (d : ComponentClass)
| ByInstance (c : Component).

(** [component.name] for a reference. *)
Definition ref_name (a : ComponentArg) : string :=
  match a with
  | ByName s => s
  | ByClass d => cls_name d
  | ByInstance c => name c
  end.

(** The contract of Component on names: the [name] of a reference is
    canonical.  A string argument may be in any casing. *)
Definition well_named (a : ComponentArg) : Prop :=
  match a with
  | ByName _ => True
  | ByClass d => canonical (cls_name d)
  | ByInstance c => canonical (name c)
  end.

(** ** The store: a [dict] in insertion order *)

Module Dict.

Definition t := list (string * Value).

(** [dict.__getitem__] on a dict without default factory; [None] stands
    for [KeyError]. *)
Fixpoint get (k : string) (d : t) : option Value :=
  match d with
  | [] => None
  | (k', v) :: r => if String.eqb k k' then Some v else get k r
  end.

(** [dict.__setitem__]: an existing key keeps its place, a new key goes
    last. *)
Fixpoint set (k : string) (v : Value) (d : t) : t :=
  match d with
  | [] => [(k, v)]
  | (k', v') :: r =>
      if String.eqb k k' then (k, v) :: r else (k', v') :: set k v r
  end.

(** [dict.__delitem__] *)
Fixpoint del (k : string) (d : t) : t :=
  match d with
  | [] => []
  | (k', v') :: r => if String.eqb k k' then r else (k', v') :: del k r
  end.

(** [dict.values()] *)
Definition values (d : t) : list Value := map snd d.

(** [dict.__eq__]: as many entries, and every key of the one is a key of
    the other with an equal value. *)
Definition eqb (d d' : t) : bool :=
  Nat.eqb (length d) (length d')
  && forallb
       (fun kv =>
          match get (fst kv) d' with
          | Some v' => value_eqb (snd kv) v'
          | None => false
          end)
       d.

End Dict.

(** ** The entity, its engine and the world they live in *)

Record Entity := mkEntity {
  uid : Uid;
  store : Dict.t;
  _is_destroyed : bool
}.

(** The registry of an engine: names to definitions. *)
Abbreviation Registry := (gmap string ComponentClass).

(** Modelled from the spec: Engine (not among the sources), as far as the
    entity uses it: it generates uids, owns the component registry, to
    which [create_component] delegates, and holds the entities it made. *)
Record Engine := mkEngine {
  components : Registry;
  generate_uid : Uid;
  entities : list Entity
}.

(** The effects of an entity on itself and on its collaborators, in program
    order. *)
Inductive Effect :=
| SetIsDestroyed (b : bool)                (* self._is_destroyed = b *)
| OnAttached (c : nat) (e : Uid)           (* component._on_attached(self) *)
| OnEvent (c : nat) (evt : EntityEvent)    (* component._on_event(evt) *)
| ComponentDestroy (c : nat)               (* component.destroy() *)
| ComponentRemove (c : nat)                (* component.remove() *)
| OnEntityDestroyed (e : Uid).             (* ecs.entities.on_entity_destroyed(self) *)

Record World := mkWorld {
  self : Entity;
  trace : list Effect;
  next_ident : nat
}.

(** ** The monad of methods *)

Definition M (A : Type) : Type := World -> (Exn + A) * World.

Definition ret {A} (a : A) : M A := fun w => (inr a, w).

Definition raise {A} (e : Exn) : M A := fun w => (inl e, w).

Definition bind {A B} (c : M A) (k : A -> M B) : M B :=
  fun w =>
    match c w with
    | (inr a, w') => k a w'
    | (inl e, w') => (inl e, w')
    end.

Notation "x <- c ;; k" := (bind c (fun x => k))
  (at level 100, c at next level, right associativity).
Notation "c ;; k" := (bind c (fun _ => k))
  (at level 100, right associativity).

(** [try: c except KeyError: h] *)
Definition except_KeyError {A} (c : M A) (h : M A) : M A :=
  fun w =>
    match c w with
    | (inl (KeyError _), w') => h w'
    | r => r
    end.

Definition get_self : M Entity := fun w => (inr (self w), w).

Definition put_self (e : Entity) : M unit :=
  fun w => (inr tt, mkWorld e (trace w) (next_ident w)).

Definition emit (x : Effect) : M unit :=
  fun w => (inr tt, mkWorld (self w) (trace w ++ [x]) (next_ident w)).

Definition fresh_ident : M nat :=
  fun w => (inr (next_ident w), mkWorld (self w) (trace w) (S (next_ident w))).

Definition lift {A} (r : Exn + A) : M A := fun w => (r, w).

Definition set_store (d : Dict.t) : M unit :=
  e <- get_self ;; put_self (mkEntity (uid e) d (_is_destroyed e)).

(** ** ComponentRegistry *)

Module ComponentRegistry.

(** [register]: [self[component.name] = component] *)
Definition register (component : ComponentClass) (reg : Registry)
  : Registry :=
  <[cls_name component := component]> reg.

(** The key computed by the first four lines of [create]. *)
Definition key (component : ComponentArg) : string :=
  match component with
  | ByName s => upper s
  | r => ref_name r
  end.

(** [create]; the registry is a dict, so an absent key is a [KeyError]. *)
Definition create (reg : Registry) (component : ComponentArg)
    (properties : Props) (id : nat) : Exn + Component :=
  let component := key component in
  match reg !! component with
  | None => inl (KeyError component)
  | Some definition => instantiate definition properties id
  end.

End ComponentRegistry.

(** ** Entity *)

(** [Entity.__init__].  The class extends [defaultdict] and never sets a
    default factory, so indexing an absent key raises [KeyError]. *)
Definition init (ecs : Engine) (uid : option Uid) : Entity :=
  mkEntity (match uid with Some u => u | None => generate_uid ecs end)
           [] false.

(** The key computed by [Entity.__getitem__]. *)
Definition getitem_key (component : ComponentArg) : string :=
  let component :=
    match component with
    | ByName s => s
    | r => ref_name r
    end in
  upper component.

(** [Entity.__getitem__] *)
Definition getitem (component : ComponentArg) : M Value :=
  e <- get_self ;;
  match Dict.get (getitem_key component) (store e) with
  | Some v => ret v
  | None => raise (KeyError (getitem_key component))
  end.

(** The component [c] once its back-reference points to the entity [u]. *)
Definition owned_by (u : Uid) (c : Component) : Component :=
  mkComponent (ident c) (name c) (fields c) (Some u) (truthy c) (handler c).

(** Modelled from the spec: Component._on_attached (not among the sources):
    the attachment hook, called with the entity; it sets the back-reference
    of the component, which the store holds by reference. *)
Definition _on_attached (component : Component) : M unit :=
  e <- get_self ;;
  emit (OnAttached (ident component) (uid e)) ;;
  set_store
    (Dict.set (name component) (VComponent (owned_by (uid e) component))
       (store e)).

(** [Entity._attach] *)
Definition _attach (component : Component) : M bool :=
  e <- get_self ;;
  set_store (Dict.set (name component) (VComponent component) (store e)) ;;
  _on_attached component ;;
  ret true.

(** Modelled from the spec: Engine.create_component (not among the sources)
    delegates to [ComponentRegistry.create]. *)
Definition create_component (ecs : Engine) (component : ComponentArg)
    (properties : Props) : M Component :=
  id <- fresh_ident ;;
  lift (ComponentRegistry.create (components ecs) component properties id).

(** [Entity.add] *)
Definition add (ecs : Engine) (component : ComponentArg) (properties : Props)
  : M bool :=
  component <- create_component ecs component properties ;;
  _attach component.

(** [component.destroy()] on a value of the store: the destruction hook of
    a component; a foreign object has no such method. *)
Definition call_destroy (v : Value) : M unit :=
  match v with
  | VComponent c => emit (ComponentDestroy (ident c))
  | VForeign _ => raise (AttributeError "destroy")
  end.

(** [for component in self.values(): component.destroy()] *)
Fixpoint destroy_each (vs : list Value) : M unit :=
  match vs with
  | [] => ret tt
  | v :: rest => call_destroy v ;; destroy_each rest
  end.

(** [Entity.destroy] *)
Definition destroy : M unit :=
  e <- get_self ;;
  put_self (mkEntity (uid e) (store e) true) ;;
  emit (SetIsDestroyed true) ;;
  destroy_each (Dict.values (store e)) ;;
  emit (OnEntityDestroyed (uid e)).

(** The loop of [Entity.fire_event] over the values of the store. *)
Fixpoint dispatch (vs : list Value) (evt : EntityEvent) : M EntityEvent :=
  match vs with
  | [] => ret evt
  | component :: rest =>
      match component with
      | VComponent c =>
          emit (OnEvent (ident c) evt) ;;
          let evt := handler c evt in
          if prevented evt then ret evt else dispatch rest evt
      | VForeign _ => dispatch rest evt
      end
  end.

(** [Entity.fire_event] *)
Definition fire_event (name : string) (data : option Props) : M EntityEvent :=
  let evt := new_event name data in
  e <- get_self ;;
  dispatch (Dict.values (store e)) evt.

(** [Entity.has].  The result is [True], [False], or [None] when the entry
    exists and is false. *)
Definition has (component : ComponentArg) : M (option bool) :=
  except_KeyError
    (components <-
       match component with
       | ByName s => getitem (ByName s)
       | r => getitem (ByName (ref_name r))
       end ;;
     if truth components then ret (Some true) else ret None)
    (ret (Some false)).

(** The entity that a back-reference points to.  References to entities
    are held as uids: the entity at hand is found under its own uid, any
    other among the entities of the engine. *)
Definition deref (ecs : Engine) (e : Entity) (u : Uid) : option Entity :=
  if String.eqb u (uid e) then Some e
  else find (fun e' => String.eqb (uid e') u) (entities ecs).

(** [Entity.owns]: [component.entity == self].  Entity inherits [__eq__]
    from [dict], so the owner of the component and the entity are compared
    as dicts; a component without owner has [None] there, which equals no
    entity. *)
Definition owns (ecs : Engine) (component : Component) : M bool :=
  e <- get_self ;;
  ret (match entity component with
       | Some u =>
           match deref ecs e u with
           | Some owner => Dict.eqb (store owner) (store e)
           | None => false
           end
       | None => false
       end).

(** Modelled from the spec: Component.remove (not among the sources): the
    component notifies its hooks, has the entity drop its entry, and is
    returned; a foreign object has no such method. *)
Definition call_remove (v : Value) : M (option Component) :=
  match v with
  | VComponent c =>
      e <- get_self ;;
      emit (ComponentRemove (ident c)) ;;
      set_store (Dict.del (name c) (store e)) ;;
      ret (Some c)
  | VForeign _ => raise (AttributeError "remove")
  end.

(** [Entity.remove]; both branches of the source index the store and call
    [remove] on the result. *)
Definition remove (component : ComponentArg) : M (option Component) :=
  match component with
  | ByName s => v <- getitem (ByName s) ;; call_remove v
  | r => v <- getitem r ;; call_remove v
  end.

(** *** Running methods *)

Definition start (e : Entity) : World := mkWorld e [] 0.

Definition result {A} (r : (Exn + A) * World) : Exn + A := fst r.
Definition after {A} (r : (Exn + A) * World) : World := snd r.

(** ** Vocabulary of the properties *)

(** The components among the values of a store, in store order. *)
Fixpoint components_of (vs : list Value) : list Component :=
  match vs with
  | [] => []
  | VComponent c :: rest => c :: components_of rest
  | VForeign _ :: rest => components_of rest
  end.

(** The event after the handlers of [cs] have seen it one after another. *)
Definition handled (cs : list Component) (evt : EntityEvent) : EntityEvent :=
  fold_left (fun e c => handler c e) cs evt.

(** The hook calls made when [cs] are handed the event one after another,
    each with the event as its predecessors left it. *)
Fixpoint hook_calls (cs : list Component) (evt : EntityEvent) : list Effect :=
  match cs with
  | [] => []
  | c :: rest => OnEvent (ident c) evt :: hook_calls rest (handler c evt)
  end.

Definition with_trace (w : World) (t : list Effect) : World :=
  mkWorld (self w) (trace w ++ t) (next_ident w).

(** The operations of an entity. *)
Inductive Op :=
| OpAdd (component : ComponentArg) (properties : Props)
| OpRemove (component : ComponentArg)
| OpHas (component : ComponentArg)
| OpOwns (component : Component)
| OpFireEvent (name : string) (data : option Props)
| OpDestroy
| OpGetitem (component : ComponentArg).

(** The world after an operation, whether it returned or raised. *)
Definition exec (ecs : Engine) (op : Op) (w : World) : World :=
  match op with
  | OpAdd c p => after (add ecs c p w)
  | OpRemove c => after (remove c w)
  | OpHas c => after (has c w)
  | OpOwns c => after (owns ecs c w)
  | OpFireEvent n d => after (fire_event n d w)
  | OpDestroy => after (destroy w)
  | OpGetitem c => after (getitem c w)
  end.

Definition exec_all (ecs : Engine) (ops : list Op) (w : World) : World :=
  fold_left (fun w op => exec ecs op w) ops w.

Definition is_destroyed (w : World) : bool := _is_destroyed (self w).

(** A computation keeps the flag when it never clears a flag that is set,
    on return or on raise. *)
Definition keeps_flag {A} (c : M A) : Prop :=
  forall w, is_destroyed w = true -> is_destroyed (snd (c w)) = true.

Create HintDb flag.

(** A registry filled by [register] alone stores every definition under its
    own name. *)
Definition registered_by_name (reg : Registry) : Prop :=
  forall (k : string) (d : ComponentClass),
    reg !! k = Some d -> cls_name d = k.

(** The keys of a store, in store order. *)
Definition store_keys (d : Dict.t) : list string := map fst d.

(** The operations that are calls of [add]. *)
Definition is_add (op : Op) : bool :=
  match op with OpAdd _ _ => true | _ => false end.

(** A handler that never prevents an event that reaches it unprevented. *)
Definition lets_through (c : Component) : Prop :=
  forall evt, prevented evt = false -> prevented (handler c evt) = false.

(** ** Concrete components for the examples *)

Module Examples.

(** A kind with two fields, [x] and [y]; its handler ignores events. *)
Definition Position : ComponentClass :=
  mkClass "POSITION"
    (fun p =>
       match p with
       | [(k1, _); (k2, _)] =>
           if String.eqb k1 "x" && String.eqb k2 "y" then Some p else None
       | _ => None
       end)
    (fun _ => true)
    (fun _ evt => evt).

(** A kind without fields whose handler prevents every event. *)
Definition Shield : ComponentClass :=
  mkClass "SHIELD"
    (fun p => match p with [] => Some [] | _ => None end)
    (fun _ => true)
    (fun _ evt => mkEvent (evt_name evt) (evt_data evt) true).

(** A kind without fields whose handler records a hit in the payload. *)
Definition Health : ComponentClass :=
  mkClass "HEALTH"
    (fun p => match p with [] => Some [] | _ => None end)
    (fun _ => true)
    (fun _ evt =>
       mkEvent (evt_name evt)
         (Some (("hit", 1%Z) :: default [] (evt_data evt)))
         (prevented evt)).

Definition registry : Registry :=
  ComponentRegistry.register Health
    (ComponentRegistry.register Shield
       (ComponentRegistry.register Position ∅)).

Definition ecs : Engine := mkEngine registry "e1" [].

(** A kind whose instances are empty containers: [len] of an instance is
    0, so the instance is false. *)
Definition Bag : ComponentClass :=
  mkClass "BAG"
    (fun p => match p with [] => Some [] | _ => None end)
    (fun _ => false)
    (fun _ evt => evt).

(** A kind whose name is not in uppercase. *)
Definition Velocity : ComponentClass :=
  mkClass "Velocity" (fun p => Some p) (fun _ => true) (fun _ evt => evt).

(** An engine that knows the kind [Bag] only. *)
Definition pantry : Engine :=
  mkEngine (ComponentRegistry.register Bag ∅) "e9" [].

Definition xy : Props := [("x", 1%Z); ("y", 2%Z)].

Definition position : Component :=
  mkComponent 0 "POSITION" xy (Some "e1") true (fun evt => evt).

Definition shield : Component :=
  mkComponent 1 "SHIELD" [] (Some "e1") true
    (fun evt => mkEvent (evt_name evt) (evt_data evt) true).

Definition health : Component :=
  mkComponent 2 "HEALTH" [] (Some "e1") true (cls_handler Health []).

Definition stray : Foreign := mkForeign 7 false.

(** An entity holding [position], a foreign object, [shield] and
    [health], attached in that order. *)
Definition hero : Entity :=
  mkEntity "e1"
    [("POSITION", VComponent position); ("NOTE", VForeign stray);
     ("SHIELD", VComponent shield); ("HEALTH", VComponent health)]
    false.

(** An entity holding components only. *)
Definition guard : Entity :=
  mkEntity "e2"
    [("HEALTH", VComponent health); ("POSITION", VComponent position)]
    false.

End Examples.

(** * Properties *)

(** ** Case folding *)

Section CaseFacts.

Lemma upper_lower_ascii (a : ascii) :
  upper_ascii (lower_ascii a) = upper_ascii a.
Proof. destruct a as [[] [] [] [] [] [] [] []]; reflexivity. Qed.

Lemma lower_upper_ascii (a : ascii) :
  lower_ascii (upper_ascii a) = lower_ascii a.
Proof. destruct a as [[] [] [] [] [] [] [] []]; reflexivity. Qed.

Lemma upper_upper_ascii (a : ascii) :
  upper_ascii (upper_ascii a) = upper_ascii a.
Proof. destruct a as [[] [] [] [] [] [] [] []]; reflexivity. Qed.

Lemma upper_lower (s : string) : upper (lower s) = upper s.
Proof.
  induction s as [|a s IH]; simpl; [reflexivity|].
  now rewrite upper_lower_ascii, IH.
Qed.

Lemma lower_upper (s : string) : lower (upper s) = lower s.
Proof.
  induction s as [|a s IH]; simpl; [reflexivity|].
  now rewrite lower_upper_ascii, IH.
Qed.

Lemma upper_idempotent (s : string) : upper (upper s) = upper s.
Proof.
  induction s as [|a s IH]; simpl; [reflexivity|].
  now rewrite upper_upper_ascii, IH.
Qed.

Lemma upper_canonical (s : string) : canonical (upper s).
Proof. apply upper_idempotent. Qed.

(** Casings of one string have one uppercase form. *)
Lemma same_ignoring_case_upper (s t : string) :
  same_ignoring_case s t -> upper s = upper t.
Proof.
  unfold same_ignoring_case; intros H.
  rewrite <- (upper_lower s), <- (upper_lower t).
  now rewrite H.
Qed.

Lemma same_ignoring_case_of_upper (s : string) :
  same_ignoring_case (upper s) s.
Proof. apply lower_upper. Qed.

Lemma same_ignoring_case_of_lower (s : string) :
  same_ignoring_case (lower s) s.
Proof.
  unfold same_ignoring_case.
  induction s as [|a s IH]; simpl; [reflexivity|].
  rewrite IH; f_equal.
  destruct a as [[] [] [] [] [] [] [] []]; reflexivity.
Qed.

End CaseFacts.

(** ** The store *)

Section DictFacts.

Lemma get_set_same (k : string) (v : Value) (d : Dict.t) :
  Dict.get k (Dict.set k v d) = Some v.
Proof.
  induction d as [|[k' v'] d IH]; simpl.
  - now rewrite String.eqb_refl.
  - destruct (String.eqb k k') eqn:E; simpl; rewrite ?String.eqb_refl, ?E;
      auto.
Qed.

Lemma get_set_other (k k' : string) (v : Value) (d : Dict.t) :
  k <> k' -> Dict.get k (Dict.set k' v d) = Dict.get k d.
Proof.
  intros Hne. apply String.eqb_neq in Hne.
  induction d as [|[k2 v2] d IH]; simpl.
  - now rewrite Hne.
  - destruct (String.eqb k' k2) eqn:E; simpl.
    + apply String.eqb_eq in E; subst k2. now rewrite Hne.
    + now rewrite IH.
Qed.

Lemma set_set_same (k : string) (v v' : Value) (d : Dict.t) :
  Dict.set k v' (Dict.set k v d) = Dict.set k v' d.
Proof.
  induction d as [|[k2 v2] d IH]; simpl.
  - now rewrite String.eqb_refl.
  - destruct (String.eqb k k2) eqn:E; simpl; rewrite ?String.eqb_refl, ?E;
      [reflexivity|now rewrite IH].
Qed.

End DictFacts.

(** ** ComponentRegistry.create *)

(** C4.  [create] fails with the lookup error of the registry (NotRegistered)
    when no definition is stored under the key it computes; when one is, the
    outcome is that of calling the definition with the properties as keyword
    arguments, and an instance so returned is new (it has the identity it
    was given and no owner), is of the kind of the definition and has the
    fields the definition built from the properties. *)
Theorem create_unregistered_or_instance
    (reg : Registry) (component : ComponentArg) (properties : Props)
    (id : nat) :
  (reg !! ComponentRegistry.key component = None ->
   ComponentRegistry.create reg component properties id
   = inl (KeyError (ComponentRegistry.key component)))
  /\ (forall d, reg !! ComponentRegistry.key component = Some d ->
      ComponentRegistry.create reg component properties id
      = instantiate d properties id
      /\ forall c,
          ComponentRegistry.create reg component properties id = inr c ->
          ident c = id /\ name c = cls_name d /\ entity c = None
          /\ cls_init d properties = Some (fields c)
          /\ handler c = cls_handler d (fields c)).
Proof.
  unfold ComponentRegistry.create; split.
  - intros ->. reflexivity.
  - intros d ->. split; [reflexivity|].
    unfold instantiate. intros c.
    destruct (cls_init d properties) as [fs|]; [|discriminate].
    intros [= <-]. simpl. auto.
Qed.

Lemma create_unregistered_or_instance_witness :
  ComponentRegistry.create Examples.registry (ByName "mana") [] 5
  = inl (KeyError "MANA")
  /\ ComponentRegistry.create Examples.registry (ByName "Position")
       Examples.xy 5
     = inr (mkComponent 5 "POSITION" Examples.xy None true (fun evt => evt)).
Proof.
  split.
  - apply (proj1 (create_unregistered_or_instance
                    Examples.registry (ByName "mana") [] 5)).
    vm_compute. reflexivity.
  - destruct (proj2 (create_unregistered_or_instance
                       Examples.registry (ByName "Position") Examples.xy 5)
                Examples.Position) as [H _].
    + vm_compute. reflexivity.
    + rewrite H. reflexivity.
Defined.

(** ** Canonical names *)

(** C5.  For a string, [ComponentRegistry.create] and the indexing of an
    entity compute the same key, its uppercase form, so strings that are
    casings of one another get one key from both.  For a component
    reference the registry takes the name as it is and the entity
    uppercases it: the key of the entity is always the uppercase form of
    the key of the registry, and the two keys are the same exactly when the
    name of the reference is in uppercase already. *)
Theorem create_key_is_getitem_key_iff_canonical (component : ComponentArg) :
  getitem_key component = upper (ComponentRegistry.key component)
  /\ (forall s t : string,
      same_ignoring_case s t ->
      ComponentRegistry.key (ByName s) = upper s
      /\ ComponentRegistry.key (ByName s) = getitem_key (ByName t))
  /\ (ComponentRegistry.key component = getitem_key component
      <-> well_named component).
Proof.
  split; [|split].
  - destruct component as [s|d|c]; unfold getitem_key; simpl;
      [now rewrite upper_idempotent | reflexivity | reflexivity].
  - intros s t Hcase. split; [reflexivity|].
    unfold getitem_key; simpl. now apply same_ignoring_case_upper.
  - destruct component as [s|d|c]; simpl; unfold getitem_key, canonical;
      simpl; split; auto.
Qed.

Lemma create_key_is_getitem_key_iff_canonical_witness :
  ComponentRegistry.key (ByName "pOsITiOn") = getitem_key (ByName "POSITION")
  /\ ComponentRegistry.key (ByClass Examples.Position)
     = getitem_key (ByClass Examples.Position).
Proof.
  split.
  - apply (proj1 (proj2 (create_key_is_getitem_key_iff_canonical
                           (ByName "pOsITiOn")))).
    reflexivity.
  - apply (proj2 (proj2 (create_key_is_getitem_key_iff_canonical
                           (ByClass Examples.Position)))).
    reflexivity.
Defined.

(** A reference to a kind whose name is not in uppercase: the registry
    looks under the name, the entity under its uppercase form. *)
Lemma create_key_is_getitem_key_counterexample :
  ComponentRegistry.key (ByClass Examples.Velocity) = "Velocity"
  /\ getitem_key (ByClass Examples.Velocity) = "VELOCITY"
  /\ ComponentRegistry.key (ByClass Examples.Velocity)
     <> getitem_key (ByClass Examples.Velocity).
Proof.
  split; [reflexivity|]. split; [reflexivity|]. discriminate.
Qed.

(** ** Lookup: [__getitem__], [has], [remove] *)

Section Lookup.

Variable w : World.

(** [has] indexes with the name of a reference, and indexing uppercases
    it: the key is that of indexing with the reference itself. *)
Lemma has_unfold (component : ComponentArg) :
  has component w
  = match Dict.get (getitem_key component) (store (self w)) with
    | Some v => (inr (if truth v then Some true else None), w)
    | None => (inr (Some false), w)
    end.
Proof.
  assert (E : forall k, has (ByName k) w
    = match Dict.get (upper k) (store (self w)) with
      | Some v => (inr (if truth v then Some true else None), w)
      | None => (inr (Some false), w)
      end).
  { intros k.
    cbv [has except_KeyError bind getitem get_self getitem_key ret raise].
    destruct (Dict.get (upper k) (store (self w))) as [v|];
      [destruct (truth v)|]; reflexivity. }
  destruct component as [s|d|c]; [apply E| |]; apply (E _).
Qed.

Lemma getitem_unfold (component : ComponentArg) :
  getitem component w
  = match Dict.get (getitem_key component) (store (self w)) with
    | Some v => (inr v, w)
    | None => (inl (KeyError (getitem_key component)), w)
    end.
Proof.
  cbv [getitem bind get_self ret raise].
  destruct (Dict.get _ _); reflexivity.
Qed.

Lemma remove_unfold (component : ComponentArg) :
  remove component w = (v <- getitem component ;; call_remove v) w.
Proof. destruct component; reflexivity. Qed.

End Lookup.



(** C6.  [has] never raises and changes nothing: it returns [True] exactly
    when the store has an entry under the canonical name and that entry is
    true, and [False] when the store has no entry there. *)
Theorem has_swallows_lookup_failure (component : ComponentArg) (w : World) :
  exists r : option bool,
    has component w = (inr r, w)
    /\ (r = Some true <->
        exists v, Dict.get (getitem_key component) (store (self w)) = Some v
                  /\ truth v = true)
    /\ (Dict.get (getitem_key component) (store (self w)) = None ->
        getitem component w = (inl (KeyError (getitem_key component)), w)
        /\ r = Some false).
Proof.
  rewrite has_unfold, getitem_unfold.
  destruct (Dict.get _ _) as [v|] eqn:E.
  - destruct (truth v) eqn:T.
    + exists (Some true). split; [reflexivity|]. split; [|discriminate].
      split; [intros _; exists v; auto | reflexivity].
    + exists None. split; [reflexivity|]. split; [|discriminate].
      split; [discriminate|].
      intros (v' & [= <-] & T'). congruence.
  - exists (Some false). split; [reflexivity|]. split; [|auto].
    split; [discriminate|].
    intros (v & Hv & _); discriminate.
Qed.

Lemma has_swallows_lookup_failure_witness :
  has (ByName "mana") (start Examples.hero)
  = (inr (Some false), start Examples.hero)
  /\ has (ByName "shield") (start Examples.hero)
     = (inr (Some true), start Examples.hero).
Proof.
  split.
  - destruct (has_swallows_lookup_failure (ByName "mana")
                (start Examples.hero)) as (r & Hr & _ & Hnone).
    destruct (Hnone eq_refl) as [_ ->]. exact Hr.
  - destruct (has_swallows_lookup_failure (ByName "shield")
                (start Examples.hero)) as (r & Hr & Htrue & _).
    rewrite Hr. f_equal. f_equal. apply Htrue.
    exists (VComponent Examples.shield). split; reflexivity.
Defined.

(** C7.  When the store has no entry under the canonical name, indexing and
    [remove] both raise the lookup error (NotFound) and change nothing. *)
Theorem absent_entry_raises_KeyError (component : ComponentArg) (w : World) :
  Dict.get (getitem_key component) (store (self w)) = None ->
  getitem component w = (inl (KeyError (getitem_key component)), w)
  /\ remove component w = (inl (KeyError (getitem_key component)), w).
Proof.
  intros H.
  assert (G : getitem component w
              = (inl (KeyError (getitem_key component)), w)).
  { rewrite getitem_unfold, H. reflexivity. }
  split; [exact G|].
  rewrite remove_unfold. unfold bind. rewrite G. reflexivity.
Qed.

Lemma absent_entry_raises_KeyError_witness :
  getitem (ByName "mana") (start Examples.hero)
  = (inl (KeyError "MANA"), start Examples.hero)
  /\ remove (ByName "mana") (start Examples.hero)
     = (inl (KeyError "MANA"), start Examples.hero).
Proof.
  apply (absent_entry_raises_KeyError (ByName "mana") (start Examples.hero)).
  reflexivity.
Defined.

(** ** Event dispatch *)

Section Dispatch.

Lemma with_trace_nil (w : World) : with_trace w [] = w.
Proof. destruct w; unfold with_trace; simpl. now rewrite app_nil_r. Qed.

Lemma with_trace_app (w : World) (t1 t2 : list Effect) :
  with_trace (with_trace w t1) t2 = with_trace w (t1 ++ t2).
Proof. unfold with_trace; simpl. now rewrite app_assoc. Qed.

Lemma emit_with_trace (x : Effect) (w : World) :
  emit x w = (inr tt, with_trace w [x]).
Proof. reflexivity. Qed.

Lemma handled_snoc (cs : list Component) (c : Component)
    (evt : EntityEvent) :
  handled (cs ++ [c]) evt = handler c (handled cs evt).
Proof. unfold handled. now rewrite fold_left_app. Qed.

(** The loop hands the event to a prefix [seen] of the components: the
    first component is always called, no proper prefix of [seen] leaves
    the event prevented, and components are left over only when [seen]
    does. *)
Lemma dispatch_prefix (vs : list Value) :
  forall (evt : EntityEvent) (w : World),
  exists seen unseen : list Component,
    components_of vs = seen ++ unseen
    /\ dispatch vs evt w
       = (inr (handled seen evt), with_trace w (hook_calls seen evt))
    /\ (forall pre post, seen = pre ++ post -> pre <> [] -> post <> [] ->
        prevented (handled pre evt) = false)
    /\ (unseen <> [] -> prevented (handled seen evt) = true).
Proof.
  induction vs as [|v vs IH]; intros evt w.
  - exists [], []. simpl. rewrite with_trace_nil.
    split; [reflexivity|]. split; [reflexivity|]. split; [|congruence].
    intros pre post E Hpre _.
    destruct pre; [congruence|discriminate E].
  - destruct v as [c|o]; simpl.
    + unfold bind at 1. rewrite emit_with_trace.
      destruct (prevented (handler c evt)) eqn:P.
      * exists [c], (components_of vs). simpl.
        split; [reflexivity|]. split; [reflexivity|]. split.
        -- intros pre post E Hpre Hpost.
           destruct pre as [|p pre]; [congruence|].
           destruct pre; destruct post; simpl in E; congruence.
        -- intros _. exact P.
      * destruct (IH (handler c evt) (with_trace w [OnEvent (ident c) evt]))
          as (seen & unseen & Hcs & Hrun & Hpre & Hun).
        exists (c :: seen), unseen. simpl.
        split; [now rewrite Hcs|].
        split; [now rewrite Hrun, with_trace_app|].
        split; [|exact Hun].
        intros pre post E Hne Hpost.
        destruct pre as [|p pre]; [congruence|].
        simpl in E. injection E as -> ->. simpl.
        destruct pre as [|q pre]; [exact P|].
        apply (Hpre (q :: pre) post); [reflexivity|discriminate|exact Hpost].
    + apply IH.
Qed.

(** The loop reads nothing of the world: the event it returns and the
    calls it makes are the same from any two worlds. *)
Lemma dispatch_frame (vs : list Value) :
  forall (evt : EntityEvent) (w w' : World),
  exists (r : EntityEvent) (t : list Effect),
    dispatch vs evt w = (inr r, with_trace w t)
    /\ dispatch vs evt w' = (inr r, with_trace w' t).
Proof.
  induction vs as [|v vs IH]; intros evt w w'; simpl.
  - exists evt, []. now rewrite !with_trace_nil.
  - destruct v as [c|o]; [|apply IH].
    unfold bind. rewrite !emit_with_trace.
    destruct (prevented (handler c evt)).
    + eexists _, _. split; reflexivity.
    + destruct (IH (handler c evt) (with_trace w [OnEvent (ident c) evt])
                  (with_trace w' [OnEvent (ident c) evt]))
        as (r & t & -> & ->).
      exists r, (OnEvent (ident c) evt :: t).
      now rewrite !with_trace_app.
Qed.

(** A foreign value anywhere among the values is invisible to the loop. *)
Lemma dispatch_skips_foreign (vs1 vs2 : list Value) (o : Foreign) :
  forall (evt : EntityEvent) (w : World),
  dispatch (vs1 ++ VForeign o :: vs2) evt w = dispatch (vs1 ++ vs2) evt w.
Proof.
  induction vs1 as [|v vs1 IH]; intros evt w; simpl; [reflexivity|].
  destruct v as [c|o']; [|apply IH].
  unfold bind. rewrite emit_with_trace.
  destruct (prevented (handler c evt)); [reflexivity|apply IH].
Qed.

End Dispatch.

(** C1.  [fire_event] makes an event that is not prevented and hands it to
    the event hooks of a prefix [seen] of the attached components, in store
    order, each hook receiving the event as the hooks before it left it.
    The prefix ends with the first hook after which the event is prevented:
    no earlier hook left it prevented, and when components remain unseen
    the returned event is prevented.  When the returned event is not
    prevented, every component has seen it.  The entity is unchanged. *)
Theorem fire_event_stops_at_first_prevention
    (name : string) (data : option Props) (w : World) :
  let evt := new_event name data in
  exists seen unseen : list Component,
    components_of (Dict.values (store (self w))) = seen ++ unseen
    /\ prevented evt = false
    /\ fire_event name data w
       = (inr (handled seen evt), with_trace w (hook_calls seen evt))
    /\ (forall pre post, seen = pre ++ post -> post <> [] ->
        prevented (handled pre evt) = false)
    /\ (unseen <> [] -> prevented (handled seen evt) = true)
    /\ (prevented (handled seen evt) = false -> unseen = []).
Proof.
  intros evt.
  destruct (dispatch_prefix (Dict.values (store (self w))) evt w)
    as (seen & unseen & Hcs & Hrun & Hpre & Hun).
  exists seen, unseen.
  split; [exact Hcs|]. split; [reflexivity|]. split; [exact Hrun|].
  split; [|split; [exact Hun|]].
  - intros pre post E Hpost.
    destruct pre as [|p pre]; [reflexivity|].
    apply (Hpre (p :: pre) post); [exact E|discriminate|exact Hpost].
  - intros Hfalse. destruct unseen as [|u unseen]; [reflexivity|].
    rewrite Hun in Hfalse; [discriminate|discriminate].
Qed.

(** On the example entity the shield prevents the event: the position and
    the shield see it, the health component, attached later, does not. *)
Lemma fire_event_stops_at_first_prevention_witness :
  fire_event "damage" (Some [("amount", (-5)%Z)]) (start Examples.hero)
  = (inr (mkEvent "damage" (Some [("amount", (-5)%Z)]) true),
     mkWorld Examples.hero
       [OnEvent 0 (new_event "damage" (Some [("amount", (-5)%Z)]));
        OnEvent 1 (new_event "damage" (Some [("amount", (-5)%Z)]))]
       0).
Proof.
  destruct (fire_event_stops_at_first_prevention "damage"
              (Some [("amount", (-5)%Z)]) (start Examples.hero))
    as (seen & unseen & Hcs & _ & Hrun & Hpre & Hun & _).
  rewrite Hrun. simpl in Hcs.
  destruct seen as [|a [|b [|c seen]]]; simpl in Hcs.
  - subst unseen. discriminate Hun. discriminate.
  - injection Hcs as <- <-. discriminate Hun. discriminate.
  - injection Hcs as <- <- _. reflexivity.
  - injection Hcs as <- <- _ _.
    discriminate (Hpre [Examples.position; Examples.shield] (c :: seen)
                    eq_refl).
    discriminate.
Defined.

(** ** Destruction *)

Section Destroy.

Lemma destroy_each_components (vs : list Value) :
  forall w : World,
  Forall (fun v => is_component v = true) vs ->
  destroy_each vs w
  = (inr tt,
     with_trace w (map (fun v => ComponentDestroy (value_ident v)) vs)).
Proof.
  induction vs as [|v vs IH]; intros w Hall; simpl.
  - now rewrite with_trace_nil.
  - inversion Hall as [|? ? Hv Hvs]; subst.
    destruct v as [c|o]; [|discriminate Hv]. simpl.
    unfold bind. rewrite emit_with_trace, (IH _ Hvs), with_trace_app.
    reflexivity.
Qed.

(** A foreign value stops the loop with [AttributeError]; the hooks of
    the components before it have run. *)
Lemma destroy_each_foreign (vs1 vs2 : list Value) (o : Foreign) :
  forall w : World,
  Forall (fun v => is_component v = true) vs1 ->
  destroy_each (vs1 ++ VForeign o :: vs2) w
  = (inl (AttributeError "destroy"),
     with_trace w (map (fun v => ComponentDestroy (value_ident v)) vs1)).
Proof.
  induction vs1 as [|v vs1 IH]; intros w Hall; simpl.
  - now rewrite with_trace_nil.
  - inversion Hall as [|? ? Hv Hvs]; subst.
    destruct v as [c|o']; [|discriminate Hv]. simpl.
    unfold bind. rewrite emit_with_trace, (IH _ Hvs), with_trace_app.
    reflexivity.
Qed.

End Destroy.

(** C8.  On an entity whose store holds components, [destroy] first sets
    [_is_destroyed], then calls the destruction hook of each stored
    component once, in store order, and last notifies the engine's entity
    registry once; it returns normally and leaves the store as it was. *)
Theorem destroy_flag_hooks_notification (w : World) :
  Forall (fun v => is_component v = true) (Dict.values (store (self w))) ->
  destroy w
  = (inr tt,
     mkWorld (mkEntity (uid (self w)) (store (self w)) true)
       (trace w
        ++ SetIsDestroyed true
           :: map (fun v => ComponentDestroy (value_ident v))
                (Dict.values (store (self w)))
        ++ [OnEntityDestroyed (uid (self w))])
       (next_ident w)).
Proof.
  intros Hall.
  unfold destroy, bind at 1, get_self.
  unfold bind at 1, put_self. unfold bind at 1. rewrite emit_with_trace.
  unfold bind at 1. rewrite destroy_each_components by exact Hall.
  rewrite emit_with_trace, !with_trace_app.
  reflexivity.
Qed.

Lemma destroy_flag_hooks_notification_witness :
  destroy (start Examples.guard)
  = (inr tt,
     mkWorld (mkEntity "e2" (store Examples.guard) true)
       [SetIsDestroyed true; ComponentDestroy 2; ComponentDestroy 0;
        OnEntityDestroyed "e2"]
       0).
Proof.
  apply (destroy_flag_hooks_notification (start Examples.guard)).
  repeat constructor.
Defined.

(** ** The destroyed flag *)

Section Flag.

Lemma keeps_ret {A} (a : A) : keeps_flag (ret a).
Proof. intros w H; exact H. Qed.

Lemma keeps_raise {A} (e : Exn) : keeps_flag (@raise A e).
Proof. intros w H; exact H. Qed.

Lemma keeps_lift {A} (r : Exn + A) : keeps_flag (lift r).
Proof. intros w H; exact H. Qed.

Lemma keeps_get_self : keeps_flag get_self.
Proof. intros w H; exact H. Qed.

Lemma keeps_emit (x : Effect) : keeps_flag (emit x).
Proof. intros w H; exact H. Qed.

Lemma keeps_fresh_ident : keeps_flag fresh_ident.
Proof. intros w H; exact H. Qed.

Lemma keeps_bind {A B} (c : M A) (k : A -> M B) :
  keeps_flag c -> (forall a, keeps_flag (k a)) -> keeps_flag (bind c k).
Proof.
  intros Hc Hk w H. unfold bind.
  specialize (Hc w H). destruct (c w) as [[e|a] w']; simpl in *.
  - exact Hc.
  - apply Hk, Hc.
Qed.

Lemma keeps_except {A} (c h : M A) :
  keeps_flag c -> keeps_flag h -> keeps_flag (except_KeyError c h).
Proof.
  intros Hc Hh w H. unfold except_KeyError.
  specialize (Hc w H). destruct (c w) as [[[k| |m]|a] w']; simpl in *;
    auto.
Qed.

Lemma keeps_set_store (d : Dict.t) : keeps_flag (set_store d).
Proof. intros w H; exact H. Qed.

Lemma keeps_put_destroyed (u : Uid) (d : Dict.t) :
  keeps_flag (put_self (mkEntity u d true)).
Proof. intros w _; reflexivity. Qed.

Hint Resolve keeps_ret keeps_raise keeps_lift keeps_get_self keeps_emit
  keeps_fresh_ident keeps_set_store keeps_put_destroyed : flag.
Hint Extern 2 (keeps_flag (bind _ _)) =>
  apply keeps_bind; [|intro] : flag.
Hint Extern 2 (keeps_flag (except_KeyError _ _)) =>
  apply keeps_except : flag.
Hint Extern 3 (keeps_flag (match ?x with _ => _ end)) =>
  destruct x : flag.

Lemma keeps_getitem (c : ComponentArg) : keeps_flag (getitem c).
Proof. unfold getitem. auto 10 with flag. Qed.

Lemma keeps__attach (c : Component) : keeps_flag (_attach c).
Proof. unfold _attach, _on_attached. auto 12 with flag. Qed.

Lemma keeps_add (ecs : Engine) (c : ComponentArg) (p : Props) :
  keeps_flag (add ecs c p).
Proof.
  unfold add, create_component. pose proof keeps__attach.
  auto 10 with flag.
Qed.

Lemma keeps_call_remove (v : Value) : keeps_flag (call_remove v).
Proof. unfold call_remove. auto 12 with flag. Qed.

Lemma keeps_remove (c : ComponentArg) : keeps_flag (remove c).
Proof.
  pose proof keeps_getitem. pose proof keeps_call_remove.
  unfold remove. destruct c; auto 10 with flag.
Qed.

Lemma keeps_has (c : ComponentArg) : keeps_flag (has c).
Proof.
  pose proof keeps_getitem. unfold has. destruct c; auto 10 with flag.
Qed.

Lemma keeps_owns (ecs : Engine) (c : Component) : keeps_flag (owns ecs c).
Proof. unfold owns. auto 10 with flag. Qed.

Lemma keeps_dispatch (vs : list Value) :
  forall evt, keeps_flag (dispatch vs evt).
Proof.
  induction vs as [|v vs IH]; intros evt; simpl; auto 10 with flag.
Qed.

Lemma keeps_fire_event (n : string) (d : option Props) :
  keeps_flag (fire_event n d).
Proof.
  pose proof keeps_dispatch. unfold fire_event. auto 10 with flag.
Qed.

Lemma keeps_destroy_each (vs : list Value) : keeps_flag (destroy_each vs).
Proof.
  induction vs as [|v vs IH]; simpl; auto with flag.
  apply keeps_bind; [destruct v; simpl; auto with flag|auto].
Qed.

Lemma keeps_destroy : keeps_flag destroy.
Proof.
  pose proof keeps_destroy_each. unfold destroy. auto 12 with flag.
Qed.

(** [destroy] sets the flag whatever happens afterwards. *)
Lemma destroy_sets_flag (w : World) :
  is_destroyed (snd (destroy w)) = true.
Proof.
  unfold destroy, bind at 1, get_self.
  unfold bind at 1, put_self.
  set (w1 := mkWorld _ _ _).
  assert (H1 : is_destroyed w1 = true) by reflexivity.
  revert H1. generalize w1. 
  change (keeps_flag
            (emit (SetIsDestroyed true) ;;
             destroy_each (Dict.values (store (self w))) ;;
             emit (OnEntityDestroyed (uid (self w))))).
  pose proof keeps_destroy_each. auto 10 with flag.
Qed.

Lemma exec_keeps_flag (ecs : Engine) (op : Op) (w : World) :
  is_destroyed w = true -> is_destroyed (exec ecs op w) = true.
Proof.
  intros H. destruct op as [c p|c|c|c|n d| |c]; unfold exec, after.
  - exact (keeps_add ecs c p w H).
  - exact (keeps_remove c w H).
  - exact (keeps_has c w H).
  - exact (keeps_owns ecs c w H).
  - exact (keeps_fire_event n d w H).
  - exact (keeps_destroy w H).
  - exact (keeps_getitem c w H).
Qed.

Lemma exec_all_keeps_flag (ecs : Engine) (ops : list Op) :
  forall w : World,
  is_destroyed w = true -> is_destroyed (exec_all ecs ops w) = true.
Proof.
  induction ops as [|op ops IH]; intros w H; simpl; [exact H|].
  apply IH, exec_keeps_flag, H.
Qed.

End Flag.

(** C9.  The flag is clear on a new entity; no sequence of operations
    ([add], [remove], [has], [owns], [fire_event], [destroy], indexing)
    clears a flag that is set, whether the operations return or raise; and
    once [destroy] has run the flag is set and stays set. *)
Theorem is_destroyed_monotonic (ecs : Engine) :
  (forall u : option Uid, _is_destroyed (init ecs u) = false)
  /\ (forall (ops : list Op) (w : World),
      is_destroyed w = true -> is_destroyed (exec_all ecs ops w) = true)
  /\ (forall (ops : list Op) (w : World),
      is_destroyed (exec_all ecs ops (exec ecs OpDestroy w)) = true).
Proof.
  split; [reflexivity|]. split.
  - intros ops w. apply exec_all_keeps_flag.
  - intros ops w. apply exec_all_keeps_flag.
    unfold exec, after. apply destroy_sets_flag.
Qed.

Lemma is_destroyed_monotonic_witness :
  is_destroyed
    (exec_all Examples.ecs
       [OpAdd (ByName "position") Examples.xy; OpFireEvent "damage" None;
        OpRemove (ByName "HEALTH"); OpHas (ByName "mana"); OpDestroy;
        OpGetitem (ByName "mana"); OpOwns Examples.health]
       (exec Examples.ecs OpDestroy (start Examples.hero)))
  = true.
Proof.
  apply (proj1 (proj2 (is_destroyed_monotonic Examples.ecs))).
  reflexivity.
Defined.

(** ** Attachment *)

Section Attach.

Lemma registered_by_name_empty : registered_by_name ∅.
Proof. intros k d H. rewrite lookup_empty in H. discriminate. Qed.

Lemma registered_by_name_register (d : ComponentClass) (reg : Registry) :
  registered_by_name reg ->
  registered_by_name (ComponentRegistry.register d reg).
Proof.
  intros Hreg k d' H. unfold ComponentRegistry.register in H.
  apply lookup_insert_Some in H as [[<- <-]|[_ H]]; [reflexivity|].
  apply (Hreg _ _ H).
Qed.

(** An instance returned by [create] carries the key it was looked up
    under as its name, and the identity it was given. *)
Lemma create_name (reg : Registry) (a : ComponentArg) (p : Props)
    (id : nat) (c : Component) :
  registered_by_name reg ->
  ComponentRegistry.create reg a p id = inr c ->
  name c = ComponentRegistry.key a /\ ident c = id.
Proof.
  intros Hreg. unfold ComponentRegistry.create.
  destruct (reg !! ComponentRegistry.key a) as [d|] eqn:E; [|discriminate].
  unfold instantiate. destruct (cls_init d p); [|discriminate].
  intros [= <-]. simpl. split; [apply (Hreg _ _ E)|reflexivity].
Qed.

(** [add], step by step. *)
Lemma add_unfold (ecs : Engine) (a : ComponentArg) (p : Props) (w : World) :
  add ecs a p w
  = match ComponentRegistry.create (components ecs) a p (next_ident w) with
    | inl e =>
        (inl e, mkWorld (self w) (trace w) (S (next_ident w)))
    | inr c =>
        (inr true,
         mkWorld
           (mkEntity (uid (self w))
              (Dict.set (name c)
                 (VComponent (owned_by (uid (self w)) c))
                 (Dict.set (name c) (VComponent c) (store (self w))))
              (_is_destroyed (self w)))
           (trace w ++ [OnAttached (ident c) (uid (self w))])
           (S (next_ident w)))
    end.
Proof.
  cbv [add create_component bind fresh_ident lift].
  cbn [self trace next_ident].
  destruct (ComponentRegistry.create _ a p _) as [e|c]; reflexivity.
Qed.

End Attach.

(** C2.  When [add] returns, for a kind of an engine whose registry was
    filled by [register], it returns [True]; indexing by the kind then
    returns the instance that the registry created for this call, a new
    object, with its back-reference set by the attachment hook; the one
    effect of the call is the attachment hook, called on that instance with
    the entity; and [has] answers for the kind with the truth value of the
    instance: [True] when the instance is true, [None] when it is false. *)
Theorem add_attaches_new_instance
    (ecs : Engine) (K : ComponentArg) (props : Props) (w w' : World)
    (b : bool) :
  well_named K ->
  registered_by_name (components ecs) ->
  add ecs K props w = (inr b, w') ->
  b = true
  /\ exists c : Component,
       ComponentRegistry.create (components ecs) K props (next_ident w)
       = inr c
       /\ has K w' = (inr (if truthy c then Some true else None), w')
       /\ (truthy c = true -> has K w' = (inr (Some true), w'))
       /\ getitem K w'
          = (inr (VComponent (owned_by (uid (self w)) c)), w')
       /\ ident c = next_ident w
       /\ trace w' = trace w ++ [OnAttached (ident c) (uid (self w))]
       /\ uid (self w') = uid (self w).
Proof.
  intros Hwn Hreg Hadd.
  rewrite add_unfold in Hadd.
  destruct (ComponentRegistry.create (components ecs) K props (next_ident w))
    as [e|c] eqn:Hc; [discriminate|].
  injection Hadd as <- <-.
  destruct (create_name _ _ _ _ _ Hreg Hc) as [Hname Hid].
  assert (Hkey : getitem_key K = name c).
  { rewrite Hname. symmetry. destruct K as [s|d|c0]; [reflexivity| |];
      symmetry; exact Hwn. }
  assert (Hget : forall d0,
    Dict.get (getitem_key K)
      (Dict.set (name c) (VComponent (owned_by (uid (self w)) c)) d0)
    = Some (VComponent (owned_by (uid (self w)) c))).
  { intros d0. rewrite Hkey. apply get_set_same. }
  split; [reflexivity|].
  exists c. split; [reflexivity|].
  assert (Hhas : forall w0,
    w0 = mkWorld
           (mkEntity (uid (self w))
              (Dict.set (name c) (VComponent (owned_by (uid (self w)) c))
                 (Dict.set (name c) (VComponent c) (store (self w))))
              (_is_destroyed (self w)))
           (trace w ++ [OnAttached (ident c) (uid (self w))])
           (S (next_ident w)) ->
    has K w0 = (inr (if truthy c then Some true else None), w0)).
  { intros w0 ->. rewrite has_unfold. cbn [self store]. rewrite Hget.
    reflexivity. }
  split; [apply Hhas; reflexivity|].
  split; [intros Ht; rewrite (Hhas _ eq_refl), Ht; reflexivity|].
  split; [|split; [exact Hid|split; reflexivity]].
  rewrite getitem_unfold. cbn [self store]. rewrite Hget. reflexivity.
Qed.

Lemma add_attaches_new_instance_witness :
  let w := start (init Examples.ecs None) in
  let c := mkComponent 0 "POSITION" Examples.xy (Some "e1") true
             (fun evt => evt) in
  let w' := mkWorld (mkEntity "e1" [("POSITION", VComponent c)] false)
              [OnAttached 0 "e1"] 1 in
  add Examples.ecs (ByName "position") Examples.xy w = (inr true, w')
  /\ has (ByName "position") w' = (inr (Some true), w')
  /\ has (ByClass Examples.Position) w' = (inr (Some true), w').
Proof.
  intros w c w'.
  assert (Hreg : registered_by_name (components Examples.ecs)).
  { repeat apply registered_by_name_register.
    apply registered_by_name_empty. }
  assert (Hadd : add Examples.ecs (ByName "position") Examples.xy w
                 = (inr true, w')) by (vm_compute; reflexivity).
  assert (Hadd' : add Examples.ecs (ByClass Examples.Position) Examples.xy w
                  = (inr true, w')) by (vm_compute; reflexivity).
  split; [exact Hadd|]. split.
  - destruct (add_attaches_new_instance Examples.ecs (ByName "position")
                Examples.xy w w' true I Hreg Hadd)
      as (_ & c0 & Hc0 & _ & Htrue & _).
    apply Htrue. injection Hc0 as <-. reflexivity.
  - destruct (add_attaches_new_instance Examples.ecs
                (ByClass Examples.Position) Examples.xy w w' true
                eq_refl Hreg Hadd')
      as (_ & c0 & Hc0 & _ & Htrue & _).
    apply Htrue. injection Hc0 as <-. reflexivity.
Defined.

(** A kind whose instances are false: [add] attaches an instance and
    returns [True], indexing finds the instance, yet [has] answers [None]
    for the kind, not [True]. *)
Lemma add_then_has_counterexample :
  let w := start (init Examples.pantry None) in
  let w' := after (add Examples.pantry (ByClass Examples.Bag) [] w) in
  well_named (ByClass Examples.Bag)
  /\ registered_by_name (components Examples.pantry)
  /\ add Examples.pantry (ByClass Examples.Bag) [] w = (inr true, w')
  /\ getitem (ByClass Examples.Bag) w'
     = (inr (VComponent
               (mkComponent 0 "BAG" [] (Some "e9") false (fun evt => evt))),
        w')
  /\ has (ByClass Examples.Bag) w' = (inr None, w')
  /\ has (ByClass Examples.Bag) w' <> (inr (Some true), w').
Proof.
  intros w w'.
  split; [reflexivity|].
  split; [apply registered_by_name_register, registered_by_name_empty|].
  split; [reflexivity|]. split; [reflexivity|]. split; [reflexivity|].
  discriminate.
Qed.

(** * Further properties of the registry *)

(** X1.  A definition with a canonical name, once registered, is created
    from by its name in any casing and by reference alike: both give the
    outcome of calling that definition. *)
Theorem register_then_create
    (d : ComponentClass) (reg : Registry) (s : string) (properties : Props)
    (id : nat) :
  canonical (cls_name d) ->
  same_ignoring_case s (cls_name d) ->
  ComponentRegistry.create (ComponentRegistry.register d reg) (ByName s)
    properties id
  = instantiate d properties id
  /\ ComponentRegistry.create (ComponentRegistry.register d reg) (ByClass d)
       properties id
     = instantiate d properties id.
Proof.
  intros Hcan Hcase.
  unfold ComponentRegistry.create, ComponentRegistry.register; simpl.
  rewrite (same_ignoring_case_upper _ _ Hcase), Hcan.
  rewrite lookup_insert_eq. split; reflexivity.
Qed.

Lemma register_then_create_witness :
  ComponentRegistry.create (ComponentRegistry.register Examples.Shield ∅)
    (ByName "Shield") [] 3
  = instantiate Examples.Shield [] 3.
Proof.
  apply (proj1 (register_then_create Examples.Shield ∅ "Shield" [] 3
                  eq_refl eq_refl)).
Defined.

(** X2.  Registering a second definition under a name that is taken
    replaces the first without notice: the registry is as if the first had
    never been registered, and creating by reference to the first now
    builds an instance of the second. *)
Theorem register_overwrites
    (d1 d2 : ComponentClass) (reg : Registry) (properties : Props) (id : nat) :
  cls_name d1 = cls_name d2 ->
  ComponentRegistry.register d2 (ComponentRegistry.register d1 reg)
  = ComponentRegistry.register d2 reg
  /\ ComponentRegistry.create
       (ComponentRegistry.register d2 (ComponentRegistry.register d1 reg))
       (ByClass d1) properties id
     = instantiate d2 properties id.
Proof.
  intros Hname. unfold ComponentRegistry.register. rewrite Hname.
  rewrite insert_insert_eq. split; [reflexivity|].
  unfold ComponentRegistry.create; simpl. rewrite Hname.
  now rewrite lookup_insert_eq.
Qed.

Lemma register_overwrites_witness :
  let shield2 :=
    mkClass "SHIELD" (fun p => Some p) (fun _ => true) (fun _ evt => evt) in
  ComponentRegistry.create
    (ComponentRegistry.register shield2
       (ComponentRegistry.register Examples.Shield ∅))
    (ByClass Examples.Shield) Examples.xy 4
  = instantiate shield2 Examples.xy 4.
Proof.
  intros shield2.
  apply (proj2 (register_overwrites Examples.Shield shield2 ∅ Examples.xy 4
                  eq_refl)).
Defined.

(** X3.  Registering a definition leaves creation under every other key as
    it was. *)
Theorem register_leaves_other_keys
    (d : ComponentClass) (reg : Registry) (component : ComponentArg)
    (properties : Props) (id : nat) :
  ComponentRegistry.key component <> cls_name d ->
  ComponentRegistry.create (ComponentRegistry.register d reg) component
    properties id
  = ComponentRegistry.create reg component properties id.
Proof.
  intros Hne. unfold ComponentRegistry.create, ComponentRegistry.register.
  rewrite lookup_insert_ne by congruence. reflexivity.
Qed.

Lemma register_leaves_other_keys_witness :
  ComponentRegistry.create
    (ComponentRegistry.register Examples.Health Examples.registry)
    (ByName "shield") [] 1
  = ComponentRegistry.create Examples.registry (ByName "shield") [] 1.
Proof.
  apply (register_leaves_other_keys Examples.Health Examples.registry
           (ByName "shield") [] 1).
  discriminate.
Defined.

(** X4.  [register] stores a definition under its name as it is, while
    [create] uppercases a string: a definition whose name is not in
    uppercase, registered alone, is found by reference but by no string. *)
Theorem register_noncanonical_unreachable_by_string
    (d : ComponentClass) (s : string) (properties : Props) (id : nat) :
  ~ canonical (cls_name d) ->
  ComponentRegistry.create (ComponentRegistry.register d ∅) (ByName s)
    properties id
  = inl (KeyError (upper s))
  /\ ComponentRegistry.create (ComponentRegistry.register d ∅) (ByClass d)
       properties id
     = instantiate d properties id.
Proof.
  intros Hnc. unfold ComponentRegistry.create, ComponentRegistry.register.
  simpl. split.
  - rewrite lookup_insert_ne.
    + now rewrite lookup_empty.
    + intros E. apply Hnc. unfold canonical. rewrite E.
      apply upper_idempotent.
  - now rewrite lookup_insert_eq.
Qed.

Lemma register_noncanonical_unreachable_by_string_witness :
  let velocity :=
    mkClass "Velocity" (fun p => Some p) (fun _ => true) (fun _ evt => evt) in
  ComponentRegistry.create (ComponentRegistry.register velocity ∅)
    (ByName "Velocity") [] 0
  = inl (KeyError "VELOCITY").
Proof.
  intros velocity.
  apply (proj1 (register_noncanonical_unreachable_by_string velocity
                  "Velocity" [] 0 ltac:(discriminate))).
Defined.

(** * Further properties of the entity *)

Section StoreFacts.

Lemma get_None_keys (k : string) (d : Dict.t) :
  Dict.get k d = None <-> ~ In k (store_keys d).
Proof.
  induction d as [|[k' v'] d IH]; simpl.
  - split; auto.
  - destruct (String.eqb k k') eqn:E.
    + apply String.eqb_eq in E; subst k'. split; [discriminate|].
      intros H; exfalso; apply H; now left.
    + apply String.eqb_neq in E. rewrite IH. split.
      * intros H [H'|H']; [congruence|auto].
      * intros H H'. apply H. now right.
Qed.

Lemma keys_set_present (k : string) (v : Value) (d : Dict.t) :
  In k (store_keys d) -> store_keys (Dict.set k v d) = store_keys d.
Proof.
  induction d as [|[k' v'] d IH]; simpl; [tauto|].
  destruct (String.eqb k k') eqn:E; simpl.
  - apply String.eqb_eq in E; subst k'. reflexivity.
  - apply String.eqb_neq in E. intros [H|H]; [congruence|].
    now rewrite IH.
Qed.

Lemma set_absent (k : string) (v : Value) (d : Dict.t) :
  ~ In k (store_keys d) -> Dict.set k v d = d ++ [(k, v)].
Proof.
  induction d as [|[k' v'] d IH]; simpl; [reflexivity|].
  intros H. destruct (String.eqb k k') eqn:E.
  - apply String.eqb_eq in E; subst k'. exfalso; apply H; now left.
  - rewrite IH; [reflexivity|]. intros H'; apply H; now right.
Qed.

Lemma keys_set_NoDup (k : string) (v : Value) (d : Dict.t) :
  NoDup (store_keys d) -> NoDup (store_keys (Dict.set k v d)).
Proof.
  intros Hnd. destruct (in_dec string_dec k (store_keys d)) as [Hin|Hout].
  - now rewrite keys_set_present.
  - rewrite set_absent by exact Hout. unfold store_keys.
    rewrite map_app. simpl.
    apply NoDup_app. split; [exact Hnd|]. split.
    + intros x Hx Hx'. apply list_elem_of_In in Hx, Hx'.
      destruct Hx' as [<-|[]]. auto.
    + apply NoDup_singleton.
Qed.

Lemma values_set_Forall (P : Value -> Prop) (k : string) (v : Value)
    (d : Dict.t) :
  P v -> Forall P (Dict.values d) -> Forall P (Dict.values (Dict.set k v d)).
Proof.
  intros Hv. induction d as [|[k' v'] d IH]; simpl; intros Hd.
  - repeat constructor; exact Hv.
  - inversion Hd as [|? ? Hv' Hd']; subst.
    destruct (String.eqb k k'); simpl; constructor; auto.
Qed.

(** The store after a successful [add] of the instance [c]. *)
Lemma add_store (ecs : Engine) (a : ComponentArg) (p : Props) (w : World)
    (c : Component) :
  ComponentRegistry.create (components ecs) a p (next_ident w) = inr c ->
  add ecs a p w
  = (inr true,
     mkWorld
       (mkEntity (uid (self w))
          (Dict.set (name c) (VComponent (owned_by (uid (self w)) c))
             (store (self w)))
          (_is_destroyed (self w)))
       (trace w ++ [OnAttached (ident c) (uid (self w))])
       (S (next_ident w))).
Proof.
  intros Hc. rewrite add_unfold, Hc. now rewrite set_set_same.
Qed.

Lemma add_raises (ecs : Engine) (a : ComponentArg) (p : Props) (w : World)
    (e : Exn) :
  ComponentRegistry.create (components ecs) a p (next_ident w) = inl e ->
  add ecs a p w = (inl e, mkWorld (self w) (trace w) (S (next_ident w))).
Proof. intros Hc. now rewrite add_unfold, Hc. Qed.

End StoreFacts.

(** X5.  When the store has an entry under the canonical name and that
    entry is false, [has] returns neither [True] nor [False] but [None]:
    the function ends without a [return]. *)
Theorem has_returns_None_for_false_entry
    (component : ComponentArg) (w : World) (v : Value) :
  Dict.get (getitem_key component) (store (self w)) = Some v ->
  truth v = false ->
  has component w = (inr None, w).
Proof.
  intros Hget Hfalse. rewrite has_unfold, Hget, Hfalse. reflexivity.
Qed.

Lemma has_returns_None_for_false_entry_witness :
  has (ByName "note") (start Examples.hero)
  = (inr None, start Examples.hero).
Proof.
  apply (has_returns_None_for_false_entry (ByName "note")
           (start Examples.hero) (VForeign Examples.stray));
    reflexivity.
Defined.

(** X6.  When the component cannot be created, [add] raises what the
    registry raised - the lookup error for a name without definition, the
    constructor's error for properties the definition rejects - and the
    entity is untouched: nothing is attached and no hook is called. *)
Theorem add_failure_changes_nothing
    (ecs : Engine) (component : ComponentArg) (properties : Props)
    (w : World) :
  let key := ComponentRegistry.key component in
  (components ecs !! key = None ->
   result (add ecs component properties w) = inl (KeyError key)
   /\ self (after (add ecs component properties w)) = self w
   /\ trace (after (add ecs component properties w)) = trace w)
  /\ (forall d, components ecs !! key = Some d ->
      cls_init d properties = None ->
      result (add ecs component properties w) = inl TypeError
      /\ self (after (add ecs component properties w)) = self w
      /\ trace (after (add ecs component properties w)) = trace w).
Proof.
  intros key. split.
  - intros Hnone.
    rewrite (add_raises ecs component properties w (KeyError key)).
    + repeat split.
    + unfold ComponentRegistry.create. fold key. now rewrite Hnone.
  - intros d Hd Hinit.
    rewrite (add_raises ecs component properties w TypeError).
    + repeat split.
    + unfold ComponentRegistry.create, instantiate. fold key.
      now rewrite Hd, Hinit.
Qed.

Lemma add_failure_changes_nothing_witness :
  result (add Examples.ecs (ByName "mana") [] (start Examples.hero))
  = inl (KeyError "MANA")
  /\ result (add Examples.ecs (ByName "position") [] (start Examples.hero))
     = inl TypeError.
Proof.
  split.
  - apply (proj1 (add_failure_changes_nothing Examples.ecs (ByName "mana")
                    [] (start Examples.hero))).
    vm_compute. reflexivity.
  - apply (proj2 (add_failure_changes_nothing Examples.ecs
                    (ByName "position") [] (start Examples.hero))
             Examples.Position).
    + vm_compute. reflexivity.
    + reflexivity.
Defined.

(** X7.  Whether it returns or raises, [add] keeps the store well formed:
    keys stay distinct, a store of components stays a store of components,
    and the uid and the destroyed flag of the entity are as before. *)
Theorem add_keeps_store_well_formed
    (ecs : Engine) (component : ComponentArg) (properties : Props)
    (w : World) :
  let w' := after (add ecs component properties w) in
  (NoDup (store_keys (store (self w))) ->
   NoDup (store_keys (store (self w'))))
  /\ (Forall (fun v => is_component v = true) (Dict.values (store (self w)))
      -> Forall (fun v => is_component v = true)
           (Dict.values (store (self w'))))
  /\ uid (self w') = uid (self w)
  /\ _is_destroyed (self w') = _is_destroyed (self w).
Proof.
  intros w'. subst w'.
  destruct (ComponentRegistry.create (components ecs) component properties
              (next_ident w)) as [e|c] eqn:Hc.
  - rewrite (add_raises _ _ _ _ _ Hc). unfold after; simpl. auto.
  - rewrite (add_store _ _ _ _ _ Hc). unfold after; simpl.
    split; [apply keys_set_NoDup|].
    split; [apply values_set_Forall; reflexivity|auto].
Qed.

Lemma add_keeps_store_well_formed_witness :
  NoDup (store_keys (store (self
    (after (add Examples.ecs (ByName "shield") [] (start Examples.guard)))))).
Proof.
  apply (proj1 (add_keeps_store_well_formed Examples.ecs (ByName "shield") []
                  (start Examples.guard))).
  unfold store_keys; simpl.
  apply NoDup_cons; split; [|apply NoDup_singleton].
  intros H. apply list_elem_of_In in H. destruct H as [H|[]]. discriminate H.
Defined.

(** X8.  A successful [add] of a kind that is attached already replaces
    the entry where it stands, so the order of the store is unchanged and
    no hook of the replaced component is called; a kind that is not
    attached goes to the end of the store. *)
Theorem add_replaces_in_place_or_appends
    (ecs : Engine) (component : ComponentArg) (properties : Props)
    (w : World) (c : Component) :
  ComponentRegistry.create (components ecs) component properties
    (next_ident w) = inr c ->
  let w' := after (add ecs component properties w) in
  let v := VComponent (owned_by (uid (self w)) c) in
  trace w' = trace w ++ [OnAttached (ident c) (uid (self w))]
  /\ (In (name c) (store_keys (store (self w))) ->
      store_keys (store (self w')) = store_keys (store (self w)))
  /\ (~ In (name c) (store_keys (store (self w))) ->
      store (self w') = store (self w) ++ [(name c, v)]).
Proof.
  intros Hc w' v. subst w' v. rewrite (add_store _ _ _ _ _ Hc).
  unfold after; simpl.
  split; [reflexivity|]. split.
  - apply keys_set_present.
  - apply set_absent.
Qed.

Lemma add_replaces_in_place_or_appends_witness :
  store_keys (store (self (after
    (add Examples.ecs (ByName "health") [] (start Examples.guard)))))
  = ["HEALTH"; "POSITION"]
  /\ store_keys (store (self (after
       (add Examples.ecs (ByName "shield") [] (start Examples.guard)))))
     = ["HEALTH"; "POSITION"; "SHIELD"].
Proof.
  split.
  - apply (proj1 (proj2 (add_replaces_in_place_or_appends Examples.ecs
             (ByName "health") [] (start Examples.guard)
             (mkComponent 0 "HEALTH" [] None true
                (cls_handler Examples.Health []))
             ltac:(vm_compute; reflexivity)))).
    simpl. auto.
  - rewrite (proj2 (proj2 (add_replaces_in_place_or_appends Examples.ecs
               (ByName "shield") [] (start Examples.guard)
               (mkComponent 0 "SHIELD" [] None true
                  (cls_handler Examples.Shield []))
               ltac:(vm_compute; reflexivity)))).
    + reflexivity.
    + simpl. intros [H|[H|[]]]; discriminate H.
Defined.

(** X9.  A successful [add] leaves every entry under another key as it
    was. *)
Theorem add_leaves_other_entries
    (ecs : Engine) (component : ComponentArg) (properties : Props)
    (w : World) (c : Component) (k : string) :
  ComponentRegistry.create (components ecs) component properties
    (next_ident w) = inr c ->
  k <> name c ->
  Dict.get k (store (self (after (add ecs component properties w))))
  = Dict.get k (store (self w)).
Proof.
  intros Hc Hne. rewrite (add_store _ _ _ _ _ Hc). unfold after; simpl.
  now apply get_set_other.
Qed.

Lemma add_leaves_other_entries_witness :
  Dict.get "POSITION" (store (self (after
    (add Examples.ecs (ByName "shield") [] (start Examples.guard)))))
  = Some (VComponent Examples.position).
Proof.
  rewrite (add_leaves_other_entries Examples.ecs (ByName "shield") []
             (start Examples.guard)
             (mkComponent 0 "SHIELD" [] None true
                (cls_handler Examples.Shield []))
             "POSITION").
  - reflexivity.
  - vm_compute. reflexivity.
  - discriminate.
Defined.

(** X10.  [add] does not look at the destroyed flag: on a destroyed entity
    it returns or raises as on a live one, attaches the same entry and
    calls the same hook. *)
Theorem add_ignores_destroyed_flag
    (ecs : Engine) (component : ComponentArg) (properties : Props)
    (u : Uid) (d : Dict.t) (t : list Effect) (n : nat) :
  let live := mkWorld (mkEntity u d false) t n in
  let dead := mkWorld (mkEntity u d true) t n in
  result (add ecs component properties dead)
  = result (add ecs component properties live)
  /\ store (self (after (add ecs component properties dead)))
     = store (self (after (add ecs component properties live)))
  /\ trace (after (add ecs component properties dead))
     = trace (after (add ecs component properties live))
  /\ _is_destroyed (self (after (add ecs component properties dead))) = true.
Proof.
  intros live dead. subst live dead. rewrite !add_unfold. simpl.
  destruct (ComponentRegistry.create (components ecs) component properties n);
    repeat split.
Qed.

Section AttachRaw.

Lemma _attach_unfold (c : Component) (w : World) :
  _attach c w
  = (inr true,
     mkWorld
       (mkEntity (uid (self w))
          (Dict.set (name c) (VComponent (owned_by (uid (self w)) c))
             (store (self w)))
          (_is_destroyed (self w)))
       (trace w ++ [OnAttached (ident c) (uid (self w))])
       (next_ident w)).
Proof.
  cbv [_attach _on_attached bind get_self set_store put_self emit ret].
  cbn [self trace next_ident uid store _is_destroyed].
  now rewrite set_set_same.
Qed.

End AttachRaw.

(** X11.  [_attach] stores a component under its name as it is, while
    lookups uppercase: a component whose name is not in uppercase is
    attached - the store holds it and its hook has run - yet, with no
    entry under the uppercase form, [has] answers [False] for it and
    indexing by it raises the lookup error. *)
Theorem attach_noncanonical_is_not_found (c : Component) (w : World) :
  ~ canonical (name c) ->
  Dict.get (upper (name c)) (store (self w)) = None ->
  let w' := after (_attach c w) in
  result (_attach c w) = inr true
  /\ Dict.get (name c) (store (self w'))
     = Some (VComponent (owned_by (uid (self w)) c))
  /\ has (ByInstance c) w' = (inr (Some false), w')
  /\ getitem (ByInstance c) w' = (inl (KeyError (upper (name c))), w').
Proof.
  intros Hnc Hnone w'. subst w'. rewrite _attach_unfold.
  unfold result, after; simpl.
  split; [reflexivity|]. split; [apply get_set_same|].
  assert (G : Dict.get (getitem_key (ByInstance c))
                (Dict.set (name c) (VComponent (owned_by (uid (self w)) c))
                   (store (self w))) = None).
  { unfold getitem_key; simpl. rewrite get_set_other; [exact Hnone|].
    intros E. apply Hnc. exact E. }
  split.
  - rewrite has_unfold. cbn [self store]. now rewrite G.
  - rewrite getitem_unfold. cbn [self store]. now rewrite G.
Qed.

Lemma attach_noncanonical_is_not_found_witness :
  let c := mkComponent 9 "Velocity" [] None true (fun evt => evt) in
  let w' := after (_attach c (start Examples.guard)) in
  has (ByInstance c) w' = (inr (Some false), w')
  /\ Dict.get "Velocity" (store (self w'))
     = Some (VComponent (owned_by "e2" c)).
Proof.
  intros c w'.
  destruct (attach_noncanonical_is_not_found c (start Examples.guard))
    as (_ & Hin & Hhas & _).
  - discriminate.
  - reflexivity.
  - split; [exact Hhas | exact Hin].
Defined.

(** ** Destruction, again *)

Section DestroyRuns.

Lemma destroy_unfold (w : World) :
  destroy w
  = bind (destroy_each (Dict.values (store (self w))))
      (fun _ => emit (OnEntityDestroyed (uid (self w))))
      (mkWorld (mkEntity (uid (self w)) (store (self w)) true)
         (trace w ++ [SetIsDestroyed true]) (next_ident w)).
Proof. reflexivity. Qed.

(** The effects of one complete run of [destroy] on entity [e]. *)
Lemma destroy_components_run (w : World) :
  Forall (fun v => is_component v = true) (Dict.values (store (self w))) ->
  destroy w
  = (inr tt,
     mkWorld (mkEntity (uid (self w)) (store (self w)) true)
       (trace w
        ++ SetIsDestroyed true
           :: map (fun v => ComponentDestroy (value_ident v))
                (Dict.values (store (self w)))
        ++ [OnEntityDestroyed (uid (self w))])
       (next_ident w)).
Proof.
  intros Hall. rewrite destroy_unfold. unfold bind.
  rewrite destroy_each_components by exact Hall.
  rewrite emit_with_trace, with_trace_app. unfold with_trace; simpl.
  now rewrite <- app_assoc.
Qed.

Lemma add_keeps_components (ecs : Engine) (a : ComponentArg) (p : Props)
    (w : World) :
  Forall (fun v => is_component v = true) (Dict.values (store (self w))) ->
  Forall (fun v => is_component v = true)
    (Dict.values (store (self (after (add ecs a p w))))).
Proof.
  intros H.
  destruct (ComponentRegistry.create (components ecs) a p (next_ident w))
    as [e|c] eqn:Hc.
  - now rewrite (add_raises _ _ _ _ _ Hc).
  - rewrite (add_store _ _ _ _ _ Hc). unfold after; simpl.
    now apply values_set_Forall.
Qed.

Lemma adds_keep_components (ecs : Engine) (ops : list Op) :
  forall w : World,
  forallb is_add ops = true ->
  Forall (fun v => is_component v = true) (Dict.values (store (self w))) ->
  Forall (fun v => is_component v = true)
    (Dict.values (store (self (exec_all ecs ops w)))).
Proof.
  induction ops as [|op ops IH]; intros w Hops Hw; simpl; [exact Hw|].
  simpl in Hops. apply andb_prop in Hops as [Hop Hops].
  apply IH; [exact Hops|].
  destruct op; try discriminate Hop. simpl. now apply add_keeps_components.
Qed.

End DestroyRuns.

(** X12.  [destroy] is not idempotent: called twice on an entity whose
    store holds components, it runs the destruction hook of every
    component twice and notifies the engine twice. *)
Theorem destroy_twice_runs_hooks_twice (w : World) :
  Forall (fun v => is_component v = true) (Dict.values (store (self w))) ->
  let round :=
    SetIsDestroyed true
    :: map (fun v => ComponentDestroy (value_ident v))
         (Dict.values (store (self w)))
    ++ [OnEntityDestroyed (uid (self w))] in
  (destroy ;; destroy) w
  = (inr tt,
     mkWorld (mkEntity (uid (self w)) (store (self w)) true)
       (trace w ++ round ++ round) (next_ident w)).
Proof.
  intros Hall round. subst round. unfold bind.
  rewrite (destroy_components_run w Hall).
  rewrite destroy_components_run by exact Hall.
  simpl. now rewrite <- app_assoc.
Qed.

Lemma destroy_twice_runs_hooks_twice_witness :
  trace (after ((destroy ;; destroy) (start Examples.guard)))
  = [SetIsDestroyed true; ComponentDestroy 2; ComponentDestroy 0;
     OnEntityDestroyed "e2";
     SetIsDestroyed true; ComponentDestroy 2; ComponentDestroy 0;
     OnEntityDestroyed "e2"].
Proof.
  rewrite (destroy_twice_runs_hooks_twice (start Examples.guard)).
  - reflexivity.
  - repeat constructor.
Defined.

(** X13.  [destroy] calls [destroy] on every value of the store without
    asking whether it is a component.  At the first stored object that has
    no such method it raises [AttributeError]: the flag is set and the
    components before that object are destroyed, those after it are not,
    and the engine is never notified. *)
Theorem destroy_stops_at_foreign_value
    (w : World) (d1 d2 : Dict.t) (k : string) (o : Foreign) :
  store (self w) = d1 ++ (k, VForeign o) :: d2 ->
  Forall (fun v => is_component v = true) (Dict.values d1) ->
  destroy w
  = (inl (AttributeError "destroy"),
     mkWorld (mkEntity (uid (self w)) (store (self w)) true)
       (trace w
        ++ SetIsDestroyed true
           :: map (fun v => ComponentDestroy (value_ident v))
                (Dict.values d1))
       (next_ident w)).
Proof.
  intros Hstore Hall. rewrite destroy_unfold. unfold bind.
  rewrite Hstore at 1. unfold Dict.values at 1. rewrite map_app. simpl.
  rewrite destroy_each_foreign by exact Hall.
  unfold with_trace; simpl. now rewrite <- app_assoc.
Qed.

Lemma destroy_stops_at_foreign_value_witness :
  destroy (start Examples.hero)
  = (inl (AttributeError "destroy"),
     mkWorld (mkEntity "e1" (store Examples.hero) true)
       [SetIsDestroyed true; ComponentDestroy 0] 0).
Proof.
  apply (destroy_stops_at_foreign_value (start Examples.hero)
           [("POSITION", VComponent Examples.position)]
           [("SHIELD", VComponent Examples.shield);
            ("HEALTH", VComponent Examples.health)]
           "NOTE" Examples.stray).
  - reflexivity.
  - repeat constructor.
Defined.

(** X14.  An entity that was built from a new one by calls of [add] alone,
    whether they succeeded or failed, holds components only, so [destroy]
    returns normally on it, having set the flag, destroyed every attached
    component once in store order and notified the engine once. *)
Theorem entity_built_by_add_is_destroyable
    (ecs : Engine) (u : option Uid) (ops : list Op) :
  forallb is_add ops = true ->
  let w := exec_all ecs ops (start (init ecs u)) in
  Forall (fun v => is_component v = true) (Dict.values (store (self w)))
  /\ destroy w
     = (inr tt,
        mkWorld (mkEntity (uid (self w)) (store (self w)) true)
          (trace w
           ++ SetIsDestroyed true
              :: map (fun v => ComponentDestroy (value_ident v))
                   (Dict.values (store (self w)))
           ++ [OnEntityDestroyed (uid (self w))])
          (next_ident w)).
Proof.
  intros Hops w.
  assert (Hall : Forall (fun v => is_component v = true)
                   (Dict.values (store (self w)))).
  { apply adds_keep_components; [exact Hops|]. constructor. }
  split; [exact Hall|]. now apply destroy_components_run.
Qed.

Lemma entity_built_by_add_is_destroyable_witness :
  let w := exec_all Examples.ecs
             [OpAdd (ByName "health") []; OpAdd (ByName "mana") [];
              OpAdd (ByClass Examples.Position) Examples.xy]
             (start (init Examples.ecs None)) in
  result (destroy w) = inr tt
  /\ trace (after (destroy w))
     = [OnAttached 0 "e1"; OnAttached 2 "e1"; SetIsDestroyed true;
        ComponentDestroy 0; ComponentDestroy 2; OnEntityDestroyed "e1"].
Proof.
  intros w.
  destruct (entity_built_by_add_is_destroyable Examples.ecs None
              [OpAdd (ByName "health") []; OpAdd (ByName "mana") [];
               OpAdd (ByClass Examples.Position) Examples.xy] eq_refl)
    as [_ H].
  fold w in H. rewrite H. split; reflexivity.
Defined.

(** ** Event dispatch, again *)

Section DispatchRuns.

Lemma dispatch_no_components (vs : list Value) :
  forall (evt : EntityEvent) (w : World),
  components_of vs = [] -> dispatch vs evt w = (inr evt, w).
Proof.
  induction vs as [|v vs IH]; intros evt w H; simpl; [reflexivity|].
  destruct v as [c|o]; [discriminate H|]. now apply IH.
Qed.

Lemma dispatch_first (vs : list Value) :
  forall (evt : EntityEvent) (w : World) (c : Component)
         (rest : list Component),
  components_of vs = c :: rest ->
  exists (r : EntityEvent) (t : list Effect),
    dispatch vs evt w = (inr r, with_trace w (OnEvent (ident c) evt :: t))
    /\ (prevented (handler c evt) = true -> r = handler c evt /\ t = []).
Proof.
  induction vs as [|v vs IH]; intros evt w c rest H; [discriminate H|].
  destruct v as [c'|o]; simpl in *; [|exact (IH evt w c rest H)].
  injection H as -> _. unfold bind. rewrite emit_with_trace.
  destruct (prevented (handler c evt)) eqn:P.
  - exists (handler c evt), []. split; [reflexivity|auto].
  - destruct (dispatch_frame vs (handler c evt)
                (with_trace w [OnEvent (ident c) evt]) w)
      as (r & t & -> & _).
    exists r, t. rewrite with_trace_app. split; [reflexivity|discriminate].
Qed.

Lemma dispatch_all (vs : list Value) :
  forall (evt : EntityEvent) (w : World),
  prevented evt = false ->
  Forall lets_through (components_of vs) ->
  dispatch vs evt w
  = (inr (handled (components_of vs) evt),
     with_trace w (hook_calls (components_of vs) evt))
  /\ prevented (handled (components_of vs) evt) = false.
Proof.
  induction vs as [|v vs IH]; intros evt w Hevt Hall; simpl.
  - now rewrite with_trace_nil.
  - destruct v as [c|o]; simpl in *; [|now apply IH].
    inversion Hall as [|? ? Hc Hrest]; subst.
    unfold bind. rewrite emit_with_trace, (Hc evt Hevt).
    destruct (IH (handler c evt) (with_trace w [OnEvent (ident c) evt])
                (Hc evt Hevt) Hrest) as [-> Hp].
    now rewrite with_trace_app.
Qed.

Lemma components_of_app (vs1 vs2 : list Value) :
  components_of (vs1 ++ vs2) = components_of vs1 ++ components_of vs2.
Proof.
  induction vs1 as [|v vs1 IH]; simpl; [reflexivity|].
  destruct v; simpl; now rewrite IH.
Qed.

(** The loop gets past values whose handlers let the event through, and
    goes on with the values behind them. *)
Lemma dispatch_past (vs1 vs2 : list Value) :
  forall (evt : EntityEvent) (w : World),
  prevented evt = false ->
  Forall lets_through (components_of vs1) ->
  dispatch (vs1 ++ vs2) evt w
  = dispatch vs2 (handled (components_of vs1) evt)
      (with_trace w (hook_calls (components_of vs1) evt))
  /\ prevented (handled (components_of vs1) evt) = false.
Proof.
  induction vs1 as [|v vs1 IH]; intros evt w Hevt Hall; simpl.
  - now rewrite with_trace_nil.
  - destruct v as [c|o]; simpl in *; [|now apply IH].
    inversion Hall as [|? ? Hc Hrest]; subst.
    unfold bind. rewrite emit_with_trace, (Hc evt Hevt).
    destruct (IH (handler c evt) (with_trace w [OnEvent (ident c) evt])
                (Hc evt Hevt) Hrest) as [-> Hp].
    now rewrite with_trace_app.
Qed.

End DispatchRuns.

(** C10.  An entry of the store that is not a component is skipped by
    [fire_event].  The hooks called are those of a prefix [seen] of the
    components before and behind the entry, in store order, the prefix
    ending only where a handler has prevented the event: no hook is called
    on the entry and the event is changed by handlers of components alone.
    Dispatch goes on behind the entry: when the handlers before it let the
    event through, the first component behind it is called next, with the
    event as they left it.  In all, the returned event and the hook calls
    are those of the same entity without the entry. *)
Theorem fire_event_skips_foreign
    (u : Uid) (d1 d2 : Dict.t) (k : string) (o : Foreign) (flag : bool)
    (t : list Effect) (n : nat) (name : string) (data : option Props) :
  let w := mkWorld (mkEntity u (d1 ++ (k, VForeign o) :: d2) flag) t n in
  let w' := mkWorld (mkEntity u (d1 ++ d2) flag) t n in
  let evt := new_event name data in
  let before := components_of (Dict.values d1) in
  let behind := components_of (Dict.values d2) in
  (exists seen unseen : list Component,
      before ++ behind = seen ++ unseen
      /\ fire_event name data w
         = (inr (handled seen evt), with_trace w (hook_calls seen evt))
      /\ (forall pre post, seen = pre ++ post -> post <> [] ->
          prevented (handled pre evt) = false)
      /\ (unseen <> [] -> prevented (handled seen evt) = true))
  /\ (Forall lets_through before ->
      forall (c : Component) (rest : list Component),
      behind = c :: rest ->
      exists (r : EntityEvent) (t' : list Effect),
        fire_event name data w
        = (inr r,
           with_trace w
             (hook_calls before evt
              ++ OnEvent (ident c) (handled before evt) :: t')))
  /\ result (fire_event name data w) = result (fire_event name data w')
  /\ trace (after (fire_event name data w))
     = trace (after (fire_event name data w'))
  /\ self (after (fire_event name data w)) = self w.
Proof.
  intros w w' evt before behind.
  assert (V : Dict.values (d1 ++ (k, VForeign o) :: d2)
              = Dict.values d1 ++ VForeign o :: Dict.values d2).
  { unfold Dict.values. now rewrite map_app. }
  assert (F : fire_event name data w
              = dispatch (Dict.values d1 ++ VForeign o :: Dict.values d2)
                  evt w).
  { unfold fire_event, bind, get_self. simpl. now rewrite V. }
  split; [|split].
  - destruct (dispatch_prefix
                (Dict.values d1 ++ VForeign o :: Dict.values d2) evt w)
      as (seen & unseen & Hcs & Hrun & Hpre & Hun).
    exists seen, unseen.
    split; [rewrite <- Hcs, components_of_app; reflexivity|].
    split; [now rewrite F|]. split; [|exact Hun].
    intros pre post E Hpost.
    destruct pre as [|p pre]; [reflexivity|].
    apply (Hpre (p :: pre) post); [exact E|discriminate|exact Hpost].
  - intros Hall c rest Hbehind. rewrite F. subst before behind.
    destruct (dispatch_past (Dict.values d1)
                (VForeign o :: Dict.values d2) evt w eq_refl Hall)
      as [-> _].
    destruct (dispatch_first (VForeign o :: Dict.values d2)
                (handled (components_of (Dict.values d1)) evt)
                (with_trace w
                   (hook_calls (components_of (Dict.values d1)) evt))
                c rest Hbehind)
      as (r & t' & -> & _).
    exists r, t'. now rewrite with_trace_app.
  - rewrite F.
    assert (F' : fire_event name data w'
                 = dispatch (Dict.values d1 ++ Dict.values d2) evt w').
    { unfold fire_event, bind, get_self. simpl.
      unfold Dict.values. now rewrite map_app. }
    rewrite F', dispatch_skips_foreign.
    destruct (dispatch_frame (Dict.values d1 ++ Dict.values d2) evt w w')
      as (r & t' & -> & ->).
    repeat split.
Qed.

(** On the example entity the foreign object stands between the position
    and the shield: the position sees the event, the object is passed
    over, and the shield sees the event next. *)
Lemma fire_event_skips_foreign_witness :
  exists (r : EntityEvent) (t' : list Effect),
    fire_event "damage" None (start Examples.hero)
    = (inr r,
       with_trace (start Examples.hero)
         (OnEvent 0 (new_event "damage" None)
          :: OnEvent 1 (new_event "damage" None) :: t')).
Proof.
  destruct (fire_event_skips_foreign "e1"
              [("POSITION", VComponent Examples.position)]
              [("SHIELD", VComponent Examples.shield);
               ("HEALTH", VComponent Examples.health)]
              "NOTE" Examples.stray false [] 0 "damage" None)
    as (_ & Hnext & _).
  destruct (Hnext ltac:(repeat constructor; intros e He; exact He)
              Examples.shield [Examples.health] eq_refl)
    as (r & t' & H).
  exists r, t'. exact H.
Defined.

(** X15.  On an entity without components - an empty store, or a store of
    foreign objects only - [fire_event] calls no hook and returns the event
    as it made it: named, carrying the payload, not prevented. *)
Theorem fire_event_without_components
    (name : string) (data : option Props) (w : World) :
  components_of (Dict.values (store (self w))) = [] ->
  fire_event name data w = (inr (mkEvent name data false), w).
Proof.
  intros H. unfold fire_event, bind, get_self.
  now apply dispatch_no_components.
Qed.

Lemma fire_event_without_components_witness :
  fire_event "tick" None
    (start (mkEntity "e3" [("NOTE", VForeign Examples.stray)] false))
  = (inr (mkEvent "tick" None false),
     start (mkEntity "e3" [("NOTE", VForeign Examples.stray)] false)).
Proof.
  apply (fire_event_without_components "tick" None
           (start (mkEntity "e3" [("NOTE", VForeign Examples.stray)] false))).
  reflexivity.
Defined.

(** X16.  The component attached first always sees the event, exactly as
    [fire_event] made it; when its handler prevents the event, it is the
    only one called and the event it left is returned. *)
Theorem fire_event_first_component_sees_fresh_event
    (name : string) (data : option Props) (w : World) (c : Component)
    (rest : list Component) :
  components_of (Dict.values (store (self w))) = c :: rest ->
  exists (r : EntityEvent) (t : list Effect),
    fire_event name data w
    = (inr r, with_trace w (OnEvent (ident c) (mkEvent name data false) :: t))
    /\ (prevented (handler c (mkEvent name data false)) = true ->
        r = handler c (mkEvent name data false) /\ t = []).
Proof.
  intros H. unfold fire_event, bind, get_self.
  apply (dispatch_first _ _ _ _ _ H).
Qed.

Lemma fire_event_first_component_sees_fresh_event_witness :
  exists (r : EntityEvent) (t : list Effect),
    fire_event "damage" None (start Examples.guard)
    = (inr r,
       with_trace (start Examples.guard)
         (OnEvent 2 (mkEvent "damage" None false) :: t)).
Proof.
  destruct (fire_event_first_component_sees_fresh_event "damage" None
              (start Examples.guard) Examples.health [Examples.position]
              eq_refl) as (r & t & H & _).
  exists r, t. exact H.
Defined.

(** X17.  When no handler of an attached component prevents an event that
    reaches it unprevented, [fire_event] calls the hook of every attached
    component, in store order, each with the event as the ones before left
    it, and the returned event is not prevented. *)
Theorem fire_event_reaches_all_when_none_prevents
    (name : string) (data : option Props) (w : World) :
  let cs := components_of (Dict.values (store (self w))) in
  let evt := mkEvent name data false in
  Forall lets_through cs ->
  fire_event name data w
  = (inr (handled cs evt), with_trace w (hook_calls cs evt))
  /\ prevented (handled cs evt) = false.
Proof.
  intros cs evt Hall. unfold fire_event, bind, get_self.
  now apply dispatch_all.
Qed.

Lemma fire_event_reaches_all_when_none_prevents_witness :
  fire_event "damage" None (start Examples.guard)
  = (inr (mkEvent "damage" (Some [("hit", 1%Z)]) false),
     mkWorld Examples.guard
       [OnEvent 2 (mkEvent "damage" None false);
        OnEvent 0 (mkEvent "damage" (Some [("hit", 1%Z)]) false)]
       0).
Proof.
  destruct (fire_event_reaches_all_when_none_prevents "damage" None
              (start Examples.guard)) as [H _].
  - repeat constructor; intros evt Hevt; exact Hevt.
  - rewrite H. reflexivity.
Defined.

(** ** Removal and the new entity *)

(** X18.  [remove] resolves its argument as indexing does: called with a
    string in any casing of a name, or with a string or reference of that
    name, it has the same outcome. *)
Theorem remove_ignores_case_and_form
    (s : string) (r : ComponentArg) (w : World) :
  same_ignoring_case s (ref_name r) ->
  remove (ByName s) w = remove r w.
Proof.
  intros Hcase.
  assert (K : getitem_key (ByName s) = getitem_key r).
  { apply same_ignoring_case_upper in Hcase. destruct r; exact Hcase. }
  rewrite !remove_unfold. unfold bind. rewrite !getitem_unfold, K.
  reflexivity.
Qed.

Lemma remove_ignores_case_and_form_witness :
  remove (ByName "shield") (start Examples.hero)
  = remove (ByInstance Examples.shield) (start Examples.hero).
Proof.
  apply (remove_ignores_case_and_form "shield"
           (ByInstance Examples.shield) (start Examples.hero)).
  reflexivity.
Defined.

(** X19.  A new entity has the uid it was given, or else the one the engine
    generates, and nothing attached: [has] answers [False] and indexing and
    [remove] raise the lookup error for every argument, [fire_event] calls
    no hook, and [destroy] only sets the flag and notifies the engine. *)
Theorem new_entity_is_empty
    (ecs : Engine) (u : option Uid) (component : ComponentArg)
    (name : string) (data : option Props) :
  let w := start (init ecs u) in
  uid (self w) = match u with Some x => x | None => generate_uid ecs end
  /\ has component w = (inr (Some false), w)
  /\ getitem component w = (inl (KeyError (getitem_key component)), w)
  /\ remove component w = (inl (KeyError (getitem_key component)), w)
  /\ fire_event name data w = (inr (mkEvent name data false), w)
  /\ destroy w
     = (inr tt,
        mkWorld (mkEntity (uid (self w)) [] true)
          [SetIsDestroyed true; OnEntityDestroyed (uid (self w))] 0).
Proof.
  intros w. subst w.
  split; [reflexivity|].
  split; [now rewrite has_unfold|].
  split; [now rewrite getitem_unfold|].
  split; [|split; reflexivity].
  rewrite remove_unfold. unfold bind. now rewrite getitem_unfold.
Qed.
